(** * canvas_spoof.js: noise on the alpha channel of exported canvases

    The script is one immediately-invoked arrow function.  Inside a
    [try]/[catch] it captures [CanvasRenderingContext2D.prototype.getImageData],
    defines [noisyFunction], and replaces [HTMLCanvasElement.prototype.toDataURL]
    and [HTMLCanvasElement.prototype.toBlob] by wrappers that call
    [noisyFunction(this, this.getContext("2d"))] and then the captured original.

    The embedding is shallow.  The page is a record (the two globals with
    their prototype slots, the canvases, the values [Math.random] is going
    to return, and a log of what happened); script code is written in a
    state-and-exception monad over it.  The browser natives the script calls
    ([getContext], [getImageData], [putImageData], the native exports) are
    modelled after the HTML standard; premultiplied storage is not modelled:
    a canvas keeps the bytes that [putImageData] wrote. *)

From Stdlib Require Import ZArith Lia ZifyNat Bool String.
From Stdlib Require Import Floats.SpecFloat.
From stdpp Require Import base list.
From Equations Require Import Equations.

Local Open Scope Z_scope.

(** ** Numbers *)

Module Number.

(** [Math.random()] and [Math.random() * 3] are IEEE 754 binary64 values. *)
Definition float64 : Type := spec_float.

Definition mul : float64 -> float64 -> float64 := SFmul 53 1024.

Definition zero : float64 := S754_zero false.
Definition one : float64 := S754_finite false 4503599627370496 (-52).
Definition three : float64 := S754_finite false 6755399441055744 (-51).

(** What [Math.random] may return: a binary64 value [r] with [0 <= r < 1]. *)
Definition is_draw (r : float64) : bool :=
  valid_binary 53 1024 r && SFleb zero r && SFltb r one.

(** The numbers the alpha computation meets are integers that binary64
    holds exactly, or not finite ([NaN], the infinities): [None]. *)
Definition number : Type := option Z.

(** [Math.floor]: the shift by a negative exponent is the floor division. *)
Definition Math_floor (x : float64) : number :=
  match x with
  | S754_zero _ => Some 0
  | S754_finite s m e => Some (Z.shiftl (cond_Zopp s (Zpos m)) e)
  | S754_infinity _ | S754_nan => None
  end.

Definition add (a b : number) : number :=
  match a, b with
  | Some x, Some y => Some (x + y)
  | _, _ => None
  end.

Definition sub (a b : number) : number :=
  match a, b with
  | Some x, Some y => Some (x - y)
  | _, _ => None
  end.

(** [ToInt32]: not finite gives 0, an integer wraps into [-2^31, 2^31). *)
Definition ToInt32 (a : number) : Z :=
  match a with
  | Some x => (x + 2147483648) mod 4294967296 - 2147483648
  | None => 0
  end.

(** The operator [&]. *)
Definition bitand (a b : number) : Z := Z.land (ToInt32 a) (ToInt32 b).

(** Storing an integer into a [Uint8ClampedArray] element. *)
Definition ToUint8Clamp (v : Z) : Z := Z.max 0 (Z.min 255 v).

End Number.

(** ** The page *)

Inductive exn : Type :=
  | ReferenceError (name : string)
  | TypeError (what : string)
  | IndexSizeError (operation : string)
  | SecurityError (operation : string).

Inductive completion (A : Type) : Type :=
  | Normal (a : A)
  | Throw (e : exn).
Arguments Normal {A} a.
Arguments Throw {A} e.

Inductive native : Type :=
  | native_getImageData
  | native_toDataURL
  | native_toBlob.

(** A property value of one of the two prototypes: nothing, a native, or a
    function the script created.  Both functions the script creates have the
    same body and differ in their captured variables only: [getImageData]
    (through [noisyFunction]) and the original export. *)
Inductive value : Type :=
  | Undefined
  | Native (f : native)
  | Wrapper (getImageData : value) (original : value).

Inductive arg : Type :=
  | ArgUndefined
  | ArgString (s : string)
  | ArgNumber (x : Number.float64)
  | ArgFunction (callback : nat).

(** The file the browser's encoder makes of a bitmap: kept as a term. *)
Record encoded : Type := Encoded {
  enc_width : nat;
  enc_height : nat;
  enc_pixels : list Z;
  enc_options : list arg
}.

Inductive result : Type :=
  | RUndefined
  | RDataURL (image : option encoded).   (* [None] is the string "data:," *)

Inductive context_mode : Type :=
  | NoContext          (* getContext was never called *)
  | Context2D          (* the canvas has a 2D context *)
  | OtherContext.      (* the canvas is bound to webgl, bitmaprenderer, ... *)

Record canvas : Type := Canvas {
  width : nat;
  height : nat;
  mode : context_mode;
  origin_clean : bool;
  bitmap : list Z        (* RGBA, row-major, one byte per channel *)
}.

Record ImageData : Type := Build_ImageData {
  image_width : nat;
  image_height : nat;
  data : list Z
}.

Inductive event : Type :=
  | PixelRead (context : nat) (sw sh : nat)
  | ElementGet (i : nat)
  | ElementSet (i : nat) (v : Z)
  | PixelWrite (context : nat) (pixels : list Z)
  | NativeCall (f : native) (this : nat) (args : list arg)
  | BlobTask (callback : nat) (blob : option encoded)
  | ConsoleError (message : string) (e : exn).

Record CanvasRenderingContext2D_prototype : Type := Context2DProto {
  getImageData : value
}.

Record HTMLCanvasElement_prototype : Type := CanvasProto {
  toDataURL : value;
  toBlob : value
}.

Record page : Type := Page {
  CanvasRenderingContext2D : option CanvasRenderingContext2D_prototype;
  HTMLCanvasElement : option HTMLCanvasElement_prototype;
  canvases : list canvas;       (* a canvas is named by its position *)
  random : nat -> Number.float64;  (* the values Math.random returns, in order *)
  drawn : nat;                  (* how many of them were returned *)
  trace : list event
}.

Definition with_HTMLCanvasElement (p : HTMLCanvasElement_prototype) (s : page) : page :=
  Page (CanvasRenderingContext2D s) (Some p) (canvases s) (random s) (drawn s) (trace s).

Definition with_canvases (cs : list canvas) (s : page) : page :=
  Page (CanvasRenderingContext2D s) (HTMLCanvasElement s) cs (random s) (drawn s) (trace s).

Definition with_drawn (n : nat) (s : page) : page :=
  Page (CanvasRenderingContext2D s) (HTMLCanvasElement s) (canvases s) (random s) n (trace s).

Definition log (ev : event) (s : page) : page :=
  Page (CanvasRenderingContext2D s) (HTMLCanvasElement s) (canvases s) (random s) (drawn s)
       (trace s ++ [ev]).

Definition with_mode (m : context_mode) (c : canvas) : canvas :=
  Canvas (width c) (height c) m (origin_clean c) (bitmap c).

Definition with_bitmap (b : list Z) (c : canvas) : canvas :=
  Canvas (width c) (height c) (mode c) (origin_clean c) b.

(** ** Script code: state and exceptions *)

Definition JS (A : Type) : Type := page -> completion A * page.

#[export] Instance JS_ret : MRet JS := fun A a s => (Normal a, s).

#[export] Instance JS_bind : MBind JS := fun A B f m s =>
  match m s with
  | (Normal a, s') => f a s'
  | (Throw e, s') => (Throw e, s')
  end.

Definition throw {A : Type} (e : exn) : JS A := fun s => (Throw e, s).

Definition try_catch {A : Type} (body : JS A) (handler : exn -> JS A) : JS A := fun s =>
  match body s with
  | (Normal a, s') => (Normal a, s')
  | (Throw e, s') => handler e s'
  end.

Definition get : JS page := fun s => (Normal s, s).
Definition modify (f : page -> page) : JS unit := fun s => (Normal tt, f s).

(** ** Browser natives *)

(** A row cut or padded with transparent black to [n] bytes. *)
Definition fit (n : nat) (l : list Z) : list Z := take n (l ++ replicate n 0).

(** [getImageData(0, 0, sw, sh)] reads the rectangle row by row; what lies
    outside the canvas is transparent black. *)
Definition read_rect (c : canvas) (sw sh : nat) : list Z :=
  concat (map (fun y : nat =>
                 fit (4 * sw)
                     (if (y <? height c)%nat
                      then take (4 * width c) (drop (4 * width c * y) (bitmap c))
                      else []))
              (seq 0 sh)).

(** [putImageData(imageData, 0, 0)] overwrites the part of each canvas row
    that the image covers. *)
Definition write_rect (c : canvas) (img : ImageData) : list Z :=
  concat (map (fun y : nat =>
                 let old := fit (4 * width c) (drop (4 * width c * y) (bitmap c)) in
                 if (y <? image_height img)%nat
                 then take (4 * width c)
                           (fit (4 * image_width img)
                                (drop (4 * image_width img * y) (data img))
                            ++ drop (4 * image_width img) old)
                 else old)
              (seq 0 (height c))).

(** [this.getContext("2d")]: the context a canvas has, made on first request;
    [null] when the canvas is bound to another kind of context.  A context is
    named by its canvas. *)
Definition getContext_2d (this : nat) : JS (option nat) := fun s =>
  match canvases s !! this with
  | None => (Throw (TypeError "this.getContext is not a function"), s)
  | Some c =>
      match mode c with
      | NoContext =>
          (Normal (Some this),
           with_canvases (<[this := with_mode Context2D c]> (canvases s)) s)
      | Context2D => (Normal (Some this), s)
      | OtherContext => (Normal None, s)
      end
  end.

(** [getImageData.call(context, 0, 0, sw, sh)] for the captured value. *)
Definition call_getImageData (f : value) (context : nat) (sw sh : nat) : JS ImageData :=
  fun s =>
  match f with
  | Undefined => (Throw (TypeError "getImageData is undefined"), s)
  | Wrapper _ _ => (Throw (TypeError "this.getContext is not a function"), s)
  | Native native_getImageData =>
      match canvases s !! context with
      | None => (Throw (TypeError "Illegal invocation"), s)
      | Some c =>
          if (sw =? 0)%nat || (sh =? 0)%nat
          then (Throw (IndexSizeError "getImageData"), s)
          else if origin_clean c
          then (Normal (Build_ImageData sw sh (read_rect c sw sh)),
                log (PixelRead context sw sh) s)
          else (Throw (SecurityError "getImageData"), s)
      end
  | Native _ => (Throw (TypeError "Illegal invocation"), s)
  end.

(** [context.putImageData(imageData, 0, 0)]. *)
Definition putImageData (context : nat) (img : ImageData) : JS unit := fun s =>
  match canvases s !! context with
  | None => (Throw (TypeError "Illegal invocation"), s)
  | Some c =>
      let pixels := write_rect c img in
      (Normal tt,
       log (PixelWrite context pixels)
           (with_canvases (<[context := with_bitmap pixels c]> (canvases s)) s))
  end.

(** The native exports.  A canvas that is not origin-clean refuses; a canvas
    without area exports no image. *)
Definition native_export (f : native) (this : nat) (args : list arg) : JS result :=
  fun s =>
  let s := log (NativeCall f this args) s in
  match canvases s !! this with
  | None => (Throw (TypeError "Illegal invocation"), s)
  | Some c =>
      let image (options : list arg) :=
        if (width c =? 0)%nat || (height c =? 0)%nat then None
        else Some (Encoded (width c) (height c) (bitmap c) options) in
      match f with
      | native_getImageData => (Throw (TypeError "Illegal invocation"), s)
      | native_toDataURL =>
          if origin_clean c then (Normal (RDataURL (image args)), s)
          else (Throw (SecurityError "toDataURL"), s)
      | native_toBlob =>
          match args with
          | ArgFunction callback :: options =>
              if origin_clean c
              then (Normal RUndefined, log (BlobTask callback (image options)) s)
              else (Throw (SecurityError "toBlob"), s)
          | _ => (Throw (TypeError "parameter 1 is not of type 'Function'"), s)
          end
      end
  end.

Definition console_error (message : string) (e : exn) : JS unit :=
  modify (log (ConsoleError message e)).

(** ** The script *)

(** [Math.random()]. *)
Definition Math_random : JS Number.float64 := fun s =>
  (Normal (random s (drawn s)), with_drawn (S (drawn s)) s).

(** Line 16: [Math.floor(r * 3) - 1] for the value [r] of [Math.random()]. *)
Definition noise_of (r : Number.float64) : Number.number :=
  Number.sub (Number.Math_floor (Number.mul r Number.three)) (Some 1).

(** Line 17, right-hand side: [(imageData.data[i + 3] + noise) & 255]; an
    element read past the end is [undefined], which is not a number. *)
Definition noisy_alpha (element : option Z) (noise : Number.number) : Z :=
  Number.bitand (Number.add element noise) (Some 255).

(** Lines 14-18: [for (let i = 0; i < imageData.data.length; i += 4)].  The
    loop works on the array of the ImageData; a store past the end of a typed
    array is dropped. *)
Equations? alpha_loop (i : nat) (data : list Z) (s : page) : list Z * page
  by wf (length data - i)%nat lt :=
  alpha_loop i data s with decide (i < length data)%nat => {
    | left _ =>
        let noise := noise_of (random s (drawn s)) in
        let v := noisy_alpha (data !! (i + 3)%nat) noise in
        alpha_loop (i + 4)%nat
                   (<[(i + 3)%nat := Number.ToUint8Clamp v]> data)
                   (log (ElementSet (i + 3) (Number.ToUint8Clamp v))
                        (log (ElementGet (i + 3))
                             (with_drawn (S (drawn s)) s)))
    | right _ => (data, s) }.
Proof. rewrite length_insert. lia. Qed.

(** Lines 8-20. *)
Definition noisyFunction (getImageData : value) (canvas : nat) (context : option nat)
  : JS unit :=
  match context with
  | None => mret tt
  | Some context =>
      s ← get;
      match canvases s !! canvas with
      | None => throw (TypeError "canvas is not an object")
      | Some c =>
          let width := width c in
          let height := height c in
          if (width =? 0)%nat || (height =? 0)%nat then mret tt
          else
            imageData ← call_getImageData getImageData context width height;
            data' ← (fun s => let '(d, s') := alpha_loop 0 (data imageData) s in
                              (Normal d, s'));
            putImageData context
              (Build_ImageData (image_width imageData) (image_height imageData) data')
      end
  end.

(** Lines 25 and 32: [noisyFunction(this, this.getContext("2d"))]. *)
Definition apply_noise (getImageData : value) (this : nat) : JS unit :=
  context ← getContext_2d this;
  noisyFunction getImageData this context.

(** Calling a property value of [HTMLCanvasElement.prototype] on a canvas.
    Lines 24-27 and 31-34 are the [Wrapper] case; [original.apply(this,
    arguments)] passes the receiver and the arguments on. *)
Fixpoint call (f : value) (this : nat) (args : list arg) : JS result :=
  match f with
  | Undefined => throw (TypeError "undefined is not a function")
  | Native n => native_export n this args
  | Wrapper getImageData original =>
      apply_noise getImageData this;;
      call original this args
  end.

Definition read_getImageData : JS value := fun s =>
  match CanvasRenderingContext2D s with
  | None => (Throw (ReferenceError "CanvasRenderingContext2D"), s)
  | Some p => (Normal (getImageData p), s)
  end.

Definition read_export (slot : HTMLCanvasElement_prototype -> value) : JS value := fun s =>
  match HTMLCanvasElement s with
  | None => (Throw (ReferenceError "HTMLCanvasElement"), s)
  | Some p => (Normal (slot p), s)
  end.

Definition write_toDataURL (v : value) : JS unit := fun s =>
  match HTMLCanvasElement s with
  | None => (Throw (ReferenceError "HTMLCanvasElement"), s)
  | Some p => (Normal tt, with_HTMLCanvasElement (CanvasProto v (toBlob p)) s)
  end.

Definition write_toBlob (v : value) : JS unit := fun s =>
  match HTMLCanvasElement s with
  | None => (Throw (ReferenceError "HTMLCanvasElement"), s)
  | Some p => (Normal tt, with_HTMLCanvasElement (CanvasProto (toDataURL p) v) s)
  end.

(** Lines 5-34: the body of the [try]. *)
Definition install : JS unit :=
  getImageData ← read_getImageData;
  originalToDataURL ← read_export toDataURL;
  write_toDataURL (Wrapper getImageData originalToDataURL);;
  originalToBlob ← read_export toBlob;
  write_toBlob (Wrapper getImageData originalToBlob).

(** Line 36: the text before the exception in [console.error]. *)
Definition message : string := "Error in canvas spoofing script:".

(** Lines 3-38: the whole script. *)
Definition canvas_spoof : JS unit :=
  try_catch install (console_error message).

(** A page script calling [canvas.toDataURL(...)] or [canvas.toBlob(...)]:
    the property is looked up on the prototype at the time of the call. *)
Definition method (slot : HTMLCanvasElement_prototype -> value)
  (this : nat) (args : list arg) : JS result :=
  f ← read_export slot;
  call f this args.

(** ** Vocabulary of the statements *)

Definition byte (v : Z) : Prop := 0 <= v <= 255.

(** The bitmap of a canvas has four bytes for each of its pixels. *)
Definition well_formed (c : canvas) : Prop :=
  length (bitmap c) = (4 * width c * height c)%nat /\ Forall byte (bitmap c).

(** [Math.random] keeps its contract: every value is in [0, 1). *)
Definition fair (s : page) : Prop :=
  forall n : nat, Number.is_draw (random s n) = true.


(** What one pass of the loop stores for an alpha byte [a] and a draw [r]. *)
Definition noised (r : Number.float64) (a : Z) : Z :=
  Number.ToUint8Clamp (noisy_alpha (Some a) (noise_of r)).

(** The page of a browser that has the canvas API and runs no other script. *)
Definition native_page (cs : list canvas) (r : nat -> Number.float64) : page :=
  Page (Some (Context2DProto (Native native_getImageData)))
       (Some (CanvasProto (Native native_toDataURL) (Native native_toBlob)))
       cs r 0 [].

(** A browser with the canvas API in which the script has not run. *)
Definition pristine (s : page) : Prop :=
  CanvasRenderingContext2D s = Some (Context2DProto (Native native_getImageData)) /\
  HTMLCanvasElement s = Some (CanvasProto (Native native_toDataURL) (Native native_toBlob)).

(** The value of an export property, [Undefined] where there is none. *)
Definition export_of (slot : HTMLCanvasElement_prototype -> value) (s : page) : value :=
  match HTMLCanvasElement s with
  | Some p => slot p
  | None => Undefined
  end.

(** Every pixel is fully opaque. *)
Definition opaque (pixels : list Z) : Prop :=
  forall p : nat, (p mod 4 = 3)%nat -> (p < length pixels)%nat -> pixels !! p = Some 255.

(** An element access of the loop. *)
Definition accessed (ev : event) : option nat :=
  match ev with
  | ElementGet i | ElementSet i _ => Some i
  | _ => None
  end.

(** Some binary64 values in [0, 1): 0.1, 0.5 and 0.9 as JavaScript reads them,
    and the largest binary64 value below one third. *)
Definition draw_01 : Number.float64 := S754_finite false 7205759403792794 (-56).
Definition draw_05 : Number.float64 := S754_finite false 4503599627370496 (-53).
Definition draw_09 : Number.float64 := S754_finite false 8106479329266893 (-53).
Definition draw_third : Number.float64 := S754_finite false 6004799503160661 (-54).

(** A 10 x 10 canvas filled with opaque red, a canvas of one pixel tainted by
    a cross-origin image, a clean canvas of one pixel, and an empty canvas. *)
Definition red_canvas : canvas :=
  Canvas 10 10 Context2D true (concat (replicate 100 [255; 0; 0; 255])).
Definition tainted_canvas : canvas := Canvas 1 1 Context2D false [10; 20; 30; 255].
Definition pixel_canvas : canvas := Canvas 1 1 Context2D true [10; 20; 30; 40].
Definition empty_canvas : canvas := Canvas 0 0 NoContext true [].

(** * Properties *)

(** ** Binary64: [Math.floor(r * 3)] for a draw [r] *)

Section Rounding.

Lemma iter_pos_nat {A} (f : A -> A) p x :
  SpecFloat.iter_pos f p x = Nat.iter (Pos.to_nat p) f x.
Proof.
  revert x. induction p as [p IH|p IH|]; intros x; cbn [SpecFloat.iter_pos].
  - rewrite !IH, Pos2Nat.inj_xI.
    replace (S (2 * Pos.to_nat p)) with (Pos.to_nat p + Pos.to_nat p + 1)%nat by lia.
    now rewrite !Nat.iter_add.
  - rewrite !IH, Pos2Nat.inj_xO.
    replace (2 * Pos.to_nat p)%nat with (Pos.to_nat p + Pos.to_nat p)%nat by lia.
    now rewrite Nat.iter_add.
  - reflexivity.
Qed.

Lemma shr_1_m mrs : 0 <= shr_m mrs -> shr_m (shr_1 mrs) = shr_m mrs / 2.
Proof.
  destruct mrs as [m r s]; simpl; intros Hm.
  destruct m as [|[p|p|]|p]; cbn [shr_m shr_1]; try lia; try reflexivity;
    solve [apply Z.div_unique with (r := 1); lia
          |apply Z.div_unique with (r := 0); lia].
Qed.

Lemma shr_1_r mrs : 0 <= shr_m mrs -> shr_r (shr_1 mrs) = Z.odd (shr_m mrs).
Proof.
  destruct mrs as [m r s]; simpl; intros Hm.
  destruct m as [|[p|p|]|p]; simpl; try reflexivity; lia.
Qed.

Lemma shr_iter_m n mrs :
  0 <= shr_m mrs ->
  shr_m (Nat.iter n shr_1 mrs) = shr_m mrs / 2 ^ Z.of_nat n.
Proof.
  intros Hm. induction n as [|n IH].
  - simpl. now rewrite Z.div_1_r.
  - rewrite Nat.iter_succ, shr_1_m.
    + rewrite IH, Nat2Z.inj_succ, Z.pow_succ_r by lia.
      rewrite Z.div_div by lia. f_equal. lia.
    + rewrite IH. apply Z.div_pos; lia.
Qed.

Lemma shr_iter_r n mrs :
  0 <= shr_m mrs ->
  shr_r (Nat.iter (S n) shr_1 mrs) = Z.odd (shr_m mrs / 2 ^ Z.of_nat n).
Proof.
  intros Hm. rewrite Nat.iter_succ, shr_1_r, shr_iter_m; auto.
  rewrite shr_iter_m by auto. apply Z.div_pos; lia.
Qed.

Lemma digits2_pos_bounds p :
  2 ^ (Zpos (digits2_pos p) - 1) <= Zpos p < 2 ^ Zpos (digits2_pos p).
Proof.
  induction p as [p IH|p IH|]; cbn [digits2_pos].
  - rewrite Pos2Z.inj_succ.
    replace (Z.succ (Zpos (digits2_pos p)) - 1)
      with (Z.succ (Zpos (digits2_pos p) - 1)) by lia.
    rewrite !Z.pow_succ_r by lia. lia.
  - rewrite Pos2Z.inj_succ.
    replace (Z.succ (Zpos (digits2_pos p)) - 1)
      with (Z.succ (Zpos (digits2_pos p) - 1)) by lia.
    rewrite !Z.pow_succ_r by lia. lia.
  - simpl. lia.
Qed.

Lemma digits2_le m x : 0 <= x -> Zpos m < 2 ^ x -> Zpos (digits2_pos m) <= x.
Proof.
  intros Hx Hm. pose proof (digits2_pos_bounds m) as [Hlo _].
  assert (2 ^ (Zpos (digits2_pos m) - 1) < 2 ^ x) as H by lia.
  apply Z.pow_lt_mono_r_iff in H; lia.
Qed.

Lemma round_nearest_even_bounds mrs :
  let q := round_nearest_even (shr_m mrs) (loc_of_shr_record mrs) in
  shr_m mrs <= q <= shr_m mrs + (if shr_r mrs then 1 else 0).
Proof.
  destruct mrs as [m [|] [|]]; simpl; try lia.
  destruct (Z.even m); lia.
Qed.

Lemma odd_half h : Z.odd h = true -> h = 2 * (h / 2) + 1.
Proof.
  intros Ho. pose proof (Z.div_mod h 2 ltac:(lia)) as Hd.
  rewrite Zmod_odd, Ho in Hd. exact Hd.
Qed.

(** Renormalising a mantissa whose value is below 3 keeps it below 3. *)
Lemma shr_exact_below_three q e' :
  0 <= q -> e' <= 0 -> q < 3 * 2 ^ (- e') ->
  let '(mrs, e'') := shr_fexp 53 1024 q e' loc_Exact in
  0 <= shr_m mrs /\ e'' <= 0 /\ shr_m mrs < 3 * 2 ^ (- e'').
Proof.
  intros Hq He Hlt. unfold shr_fexp, shr. cbn [shr_record_of_loc].
  destruct (fexp 53 1024 (Zdigits2 q + e') - e') as [|n|n] eqn:Hn;
    cbn [shr_m]; try (split; [lia|split; [lia|exact Hlt]]).
  rewrite iter_pos_nat, shr_iter_m by (cbn [shr_m]; lia). cbn [shr_m].
  rewrite positive_nat_Z.
  assert (Zdigits2 q + e' <= 2) as Hd.
  { destruct q as [|p|p]; cbn [Zdigits2]; try lia.
    assert (Zpos (digits2_pos p) <= 2 - e'); [|lia].
    apply digits2_le; [lia|].
    replace (2 - e') with (2 + - e') by lia. rewrite Z.pow_add_r by lia.
    change (2 ^ 2) with 4. lia. }
  unfold fexp, emin in Hn.
  assert (e' + Zpos n <= -51) as He'' by lia.
  split; [apply Z.div_pos; lia|]. split; [lia|].
  apply Z.div_lt_upper_bound; [lia|].
  replace (- e') with (Zpos n + - (e' + Zpos n)) in Hlt by lia.
  rewrite Z.pow_add_r in Hlt by lia. lia.
Qed.

(** The exact product [3 * 2^51 * m] at exponent [e - 51] is shifted and
    rounded to nearest, ties to even; for [m * 2^e < 1] the rounded
    mantissa stays below [3 * 2^(-e')]: a product never rounds up to 3. *)
Lemma shr_round_below_three m e :
  -1074 <= e <= -53 -> 0 < m < 2 ^ 53 ->
  let '(mrs, e') := shr_fexp 53 1024 (6755399441055744 * m) (e + -51) loc_Exact in
  let q := round_nearest_even (shr_m mrs) (loc_of_shr_record mrs) in
  0 <= q /\ e' <= 0 /\ q < 3 * 2 ^ (- e').
Proof.
  intros He Hm.
  set (M := 6755399441055744 * m). set (E := e + -51).
  assert (2 ^ 53 <= 2 ^ (- e)) as Hpe by (apply Z.pow_le_mono_r; lia).
  assert (2 ^ (- E) = 2251799813685248 * 2 ^ (- e)) as HpE.
  { unfold E. replace (- (e + -51)) with (51 + - e) by lia.
    rewrite Z.pow_add_r by lia. reflexivity. }
  assert (0 < M) as HM0 by (unfold M; lia).
  assert (M + 6755399441055744 <= 3 * 2 ^ (- E)) as HMlt by (unfold M; lia).
  assert (Zdigits2 M + E <= 2) as Hd.
  { destruct M as [|p|p] eqn:HMp; try lia. cbn [Zdigits2].
    assert (Zpos (digits2_pos p) <= 2 - E); [|lia].
    apply digits2_le; [unfold E; lia|].
    replace (2 - E) with (2 + - E) by lia. rewrite Z.pow_add_r by (unfold E; lia).
    change (2 ^ 2) with 4. lia. }
  assert (Zdigits2 M <= 106) as HD.
  { destruct M as [|p|p] eqn:HMp; try lia. cbn [Zdigits2].
    apply digits2_le; [lia|].
    change (2 ^ 106) with (2 ^ 53 * 2 ^ 53).
    change (2 ^ 53) with 9007199254740992 in *. lia. }
  unfold shr_fexp, shr. cbn [shr_record_of_loc].
  destruct (fexp 53 1024 (Zdigits2 M + E) - E) as [|n|n] eqn:Hn;
    cbn [shr_m loc_of_shr_record round_nearest_even];
    try (split; [lia|split; [unfold E; lia|lia]]).
  unfold fexp, emin in Hn.
  assert (Zpos n <= 53) as Hn53 by (unfold E in *; lia).
  assert (E + Zpos n <= -51) as He' by lia.
  pose proof (round_nearest_even_bounds
                (SpecFloat.iter_pos shr_1 n {| shr_m := M; shr_r := false; shr_s := false |})) as Hq.
  cbv zeta in Hq.
  set (q := round_nearest_even _ _) in *.
  rewrite iter_pos_nat in Hq.
  destruct (Pos2Nat.is_succ n) as [n' Hn'].
  rewrite shr_iter_m in Hq by (cbn [shr_m]; lia).
  rewrite Hn', shr_iter_r in Hq by (cbn [shr_m]; lia).
  rewrite <- Hn', positive_nat_Z in Hq. cbn [shr_m] in Hq.
  assert (Z.of_nat n' = Zpos n - 1) as Hn'Z by lia. rewrite Hn'Z in Hq.
  set (k := - (E + Zpos n)).
  assert (2 ^ (- E) = 2 ^ k * 2 ^ Zpos n) as HTP.
  { rewrite <- Z.pow_add_r by (unfold k; lia). f_equal. unfold k. lia. }
  assert (2 ^ Zpos n = 2 * 2 ^ (Zpos n - 1)) as HPP.
  { rewrite <- Z.pow_succ_r by lia. f_equal. lia. }
  assert (2 ^ (Zpos n - 1) <= 2 ^ 52) as HP' by (apply Z.pow_le_mono_r; lia).
  change (2 ^ 52) with 4503599627370496 in HP'.
  assert (0 < 2 ^ (Zpos n - 1)) as HP'0 by (apply Z.pow_pos_nonneg; lia).
  assert (0 < 2 ^ k) as HT0 by (apply Z.pow_pos_nonneg; unfold k; lia).
  set (T := 2 ^ k) in *. set (P' := 2 ^ (Zpos n - 1)) in *.
  set (h := M / P') in *.
  assert (M / 2 ^ Zpos n = h / 2) as Hq0.
  { rewrite HPP. unfold h. rewrite Z.mul_comm, Z.div_div by lia. reflexivity. }
  rewrite Hq0 in Hq.
  assert (h * P' <= M) as HhM.
  { unfold h. rewrite Z.mul_comm. apply Z.mul_div_le. lia. }
  assert (0 <= h) as Hh0 by (apply Z.div_pos; lia).
  assert (0 <= h / 2) as Hh2 by (apply Z.div_pos; lia).
  split; [lia|]. split; [lia|].
  fold k. fold T.
  assert (h < 6 * T) as HhT.
  { apply Z.div_lt_upper_bound; [lia|]. nia. }
  destruct (Z.odd h) eqn:Hodd.
  - apply odd_half in Hodd.
    destruct (Z_lt_le_dec (h / 2 + 1) (3 * T)) as [Hlt|Hge]; [lia|].
    exfalso. assert (h = 6 * T - 1) as Hh by lia.
    rewrite Hh in HhM. nia.
  - assert (h / 2 < 3 * T); [|lia].
    apply Z.div_lt_upper_bound; lia.
Qed.

(** A draw is a zero, or a positive binary64 number below one. *)
Lemma is_draw_shape r :
  Number.is_draw r = true ->
  (exists s, r = S754_zero s) \/
  (exists m e, r = S754_finite false m e /\ -1074 <= e <= -53 /\ Zpos m < 2 ^ 53).
Proof.
  unfold Number.is_draw. intros H.
  apply andb_prop in H as [H Hlt]. apply andb_prop in H as [Hv Hle].
  destruct r as [s|[|]| |[|] m e]; try discriminate; [left; eauto|right].
  exists m, e. split; [reflexivity|].
  cbn [valid_binary] in Hv. unfold bounded, canonical_mantissa in Hv.
  apply andb_prop in Hv as [Hc _]. apply Z.eqb_eq in Hc.
  unfold fexp, emin in Hc.
  unfold SFltb, Number.one in Hlt. cbn [SFcompare] in Hlt.
  pose proof (digits2_pos_bounds m) as [Hlo Hhi].
  destruct (Z.compare_spec e (-52)) as [He|He|He]; try discriminate.
  - subst e. exfalso.
    assert (Zpos (digits2_pos m) = 53) as Hd by lia. rewrite Hd in Hlo.
    change (2 ^ (53 - 1)) with 4503599627370496 in Hlo.
    destruct (Pos.compare_cont Eq m 4503599627370496) eqn:Hcmp; try discriminate.
    rewrite Pos.compare_cont_spec in Hcmp. cbn [Pos.switch_Eq] in Hcmp.
    destruct (Pos.compare_spec m 4503599627370496) as [?|Hc2|?]; try discriminate.
    apply Pos2Z.pos_lt_pos in Hc2.
    exact (Z.lt_irrefl _ (Z.lt_le_trans _ _ _ Hc2 Hlo)).
  - split; [lia|].
    assert (2 ^ Zpos (digits2_pos m) <= 2 ^ 53) by (apply Z.pow_le_mono_r; lia). lia.
Qed.

Lemma floor_mul_three_range r :
  Number.is_draw r = true ->
  exists k, Number.Math_floor (Number.mul r Number.three) = Some k /\ 0 <= k <= 2.
Proof.
  intros Hr. destruct (is_draw_shape r Hr) as [[s ->]|(m & e & -> & He & Hm)].
  - exists 0. split; [reflexivity|lia].
  - unfold Number.mul, Number.three, SFmul. cbn [xorb].
    rewrite Pos2Z.inj_mul, Z.mul_comm. unfold binary_round_aux.
    pose proof (shr_round_below_three (Zpos m) e He ltac:(lia)) as H1.
    destruct (shr_fexp 53 1024 (6755399441055744 * Zpos m) (e + -51) loc_Exact)
      as [mrs e'].
    cbv zeta in H1. destruct H1 as (Hq0 & He' & Hq).
    pose proof (shr_exact_below_three _ e' Hq0 He' Hq) as H2.
    destruct (shr_fexp 53 1024 _ e' loc_Exact) as [mrs2 e2].
    destruct H2 as (Hm2 & He2 & Hlt2).
    destruct (shr_m mrs2) as [|m2|m2] eqn:Hm2eq;
      [exists 0; split; [reflexivity|lia]| |lia].
    replace (e2 <=? 1024 - 53) with true by (symmetry; apply Z.leb_le; lia).
    eexists; split; [reflexivity|]. cbn [cond_Zopp].
    rewrite <- (Z.opp_involutive e2) at 1 2.
    rewrite Z.shiftl_opp_r, Z.shiftr_div_pow2 by lia.
    assert (0 < 2 ^ (- e2)) by (apply Z.pow_pos_nonneg; lia).
    split; [apply Z.div_pos; lia|].
    assert (Zpos m2 / 2 ^ (- e2) < 3); [|lia].
    apply Z.div_lt_upper_bound; lia.
Qed.

End Rounding.

(** ** The alpha computation *)

Lemma noise_of_range r :
  Number.is_draw r = true ->
  noise_of r = Some (-1) \/ noise_of r = Some 0 \/ noise_of r = Some 1.
Proof.
  intros Hr. destruct (floor_mul_three_range r Hr) as (k & Hk & Hrange).
  unfold noise_of. rewrite Hk. cbn [Number.sub].
  assert (k = 0 \/ k = 1 \/ k = 2) as [-> | [-> | ->]] by lia; auto.
Qed.

(** [(a + n) & 255] is the residue of [a + n] modulo 256, a byte. *)
Lemma noisy_alpha_mod a n : noisy_alpha (Some a) (Some n) = (a + n) mod 256.
Proof.
  unfold noisy_alpha, Number.bitand. cbn [Number.add].
  change (Number.ToInt32 (Some 255)) with (Z.ones 8).
  rewrite Z.land_ones by lia. cbn [Number.ToInt32].
  change (2 ^ 8) with 256.
  pose proof (Z.div_mod (a + n + 2147483648) 4294967296 ltac:(lia)) as Hd.
  replace ((a + n + 2147483648) mod 4294967296 - 2147483648)
    with (a + n + (- (16777216 * ((a + n + 2147483648) / 4294967296))) * 256) by lia.
  apply Z_mod_plus_full.
Qed.

Lemma noisy_alpha_byte element noise : byte (noisy_alpha element noise).
Proof.
  unfold noisy_alpha, Number.bitand, byte.
  change (Number.ToInt32 (Some 255)) with (Z.ones 8).
  rewrite Z.land_ones by lia. change (2 ^ 8) with 256.
  pose proof (Z.mod_pos_bound (Number.ToInt32 (Number.add element noise)) 256). lia.
Qed.

(** The clamp of the typed array never changes what the loop stores. *)
Lemma ToUint8Clamp_noisy_alpha element noise :
  Number.ToUint8Clamp (noisy_alpha element noise) = noisy_alpha element noise.
Proof.
  pose proof (noisy_alpha_byte element noise) as H. unfold byte in H.
  unfold Number.ToUint8Clamp. lia.
Qed.

Lemma noised_byte r a : byte (noised r a).
Proof. unfold noised. rewrite ToUint8Clamp_noisy_alpha. apply noisy_alpha_byte. Qed.

Lemma noised_cases r a :
  Number.is_draw r = true ->
  noised r a = (a - 1) mod 256 \/ noised r a = a mod 256 \/ noised r a = (a + 1) mod 256.
Proof.
  intros Hr. unfold noised. rewrite ToUint8Clamp_noisy_alpha.
  destruct (noise_of_range r Hr) as [-> | [-> | ->]]; rewrite noisy_alpha_mod.
  - left. f_equal.
  - right. left. f_equal. lia.
  - right. right. reflexivity.
Qed.


(** ** The loop *)

Section Loop.

#[local] Ltac Zify.zify_post_hook ::= Z.to_euclidean_division_equations.

Lemma alpha_loop_length i (d : list Z) s : length (alpha_loop i d s).1 = length d.
Proof.
funelim (alpha_loop i d s); [|reflexivity].
match goal with IH : length _ = _ |- _ => rewrite IH end. apply length_insert.
Qed.

(** The loop touches the page through [Math.random] and the log only. *)
Lemma alpha_loop_page i (d : list Z) s :
let s' := (alpha_loop i d s).2 in
CanvasRenderingContext2D s' = CanvasRenderingContext2D s /\
HTMLCanvasElement s' = HTMLCanvasElement s /\
canvases s' = canvases s /\
random s' = random s.
Proof.
funelim (alpha_loop i d s); [|cbn; auto].
match goal with IH : _ /\ _ |- _ => exact IH end.
Qed.

(** One draw for each turn of the loop: a quarter of the bytes, rounded up. *)
Lemma alpha_loop_drawn i (d : list Z) s :
drawn (alpha_loop i d s).2 = (drawn s + (length d + 3 - i) / 4)%nat.
Proof.
funelim (alpha_loop i d s).
- match goal with IH : drawn _ = _ |- _ => rewrite IH end.
  rewrite length_insert. cbn [drawn log with_drawn]. lia.
- cbn [snd]. lia.
Qed.

(** Closed form of the array after the loop, element by element. *)
Lemma alpha_loop_lookup i (d : list Z) s (p : nat) :
(alpha_loop i d s).1 !! p =
if decide (i + 3 <= p /\ (p - i) mod 4 = 3)%nat
then noised (random s (drawn s + (p - i) / 4)) <$> d !! p
else d !! p.
Proof.
funelim (alpha_loop i d s).
- match goal with IH : forall p : nat, _ !! p = _ |- _ => rewrite IH end.
  cbn [drawn random log with_drawn].
  destruct (decide (p = i + 3)%nat) as [->|Hp].
  + rewrite decide_False by lia. rewrite decide_True by (split; [lia|]; replace (i + 3 - i)%nat with 3%nat by lia; reflexivity).
    replace ((i + 3 - i) / 4)%nat with 0%nat by (replace (i + 3 - i)%nat with 3%nat by lia; reflexivity).
    rewrite Nat.add_0_r.
    destruct (data0 !! (i + 3)%nat) as [a|] eqn:Ha.
    * rewrite list_lookup_insert_eq by (apply lookup_lt_Some in Ha; lia). reflexivity.
    * apply lookup_ge_None in Ha. rewrite list_insert_ge by lia.
      cbn. now apply lookup_ge_None.
  + rewrite list_lookup_insert_ne by lia.
    destruct (decide (i + 4 + 3 <= p /\ (p - (i + 4)) mod 4 = 3)%nat) as [[H1 H2]|Hn].
    * rewrite decide_True by lia. do 3 f_equal. lia.
    * rewrite decide_False by lia. reflexivity.
- clear Heq Heqcall. cbn [fst]. case_decide as Hc; [|reflexivity].
  rewrite (proj2 (lookup_ge_None data0 p)) by lia. reflexivity.
Qed.

(** What the loop adds to the log: the element accesses at [i + 3],
  [i + 7], ... for the indices [i], [i + 4], ... below the length. *)
Lemma alpha_loop_trace i (d : list Z) s :
exists evs,
  trace (alpha_loop i d s).2 = trace s ++ evs /\
  Forall (fun ev => exists t : nat,
              accessed ev = Some (i + 4 * t + 3)%nat /\ (i + 4 * t < length d)%nat) evs.
Proof.
funelim (alpha_loop i d s).
- match goal with IH : exists _, _ |- _ => destruct IH as (evs & Htr & Hall) end.
  eexists. split.
  + rewrite Htr. cbn [trace log with_drawn]. rewrite <- !app_assoc. reflexivity.
  + cbn [app]. repeat apply Forall_cons_2.
    * exists 0%nat. cbn [accessed]. split; [f_equal; lia|lia].
    * exists 0%nat. cbn [accessed]. split; [f_equal; lia|lia].
    * rewrite length_insert in Hall.
      eapply Forall_impl; [exact Hall|]. cbn beta.
      intros ev (t & Hacc & Hlt). exists (S t). split; [rewrite Hacc; f_equal; lia|lia].
- exists []. cbn. rewrite app_nil_r. auto.
Qed.

End Loop.

(** ** Reading and writing the whole canvas *)

Section Rect.

Lemma length_fit n (l : list Z) : length (fit n l) = n.
Proof. unfold fit. rewrite length_take, length_app, length_replicate. lia. Qed.

Lemma fit_take n (l : list Z) : (n <= length l)%nat -> fit n l = take n l.
Proof. intros H. unfold fit. now rewrite take_app_le. Qed.

Lemma fit_exact n (l : list Z) : length l = n -> fit n l = l.
Proof. intros H. rewrite fit_take by lia. apply take_ge. lia. Qed.

(** Cutting a list into [k] rows of [n] and gluing them gives it back. *)
Lemma concat_rows n k (l : list Z) :
  concat (map (fun y : nat => take n (drop (n * y) l)) (seq 0 k)) = take (n * k) l.
Proof.
  induction k as [|k IH].
  - rewrite Nat.mul_0_r. reflexivity.
  - rewrite seq_S, map_app, concat_app, IH. cbn [map concat Nat.add].
    rewrite app_nil_r, take_take_drop. f_equal. lia.
Qed.

Lemma read_rect_full c :
  length (bitmap c) = (4 * width c * height c)%nat ->
  read_rect c (width c) (height c) = bitmap c.
Proof.
  intros Hlen. unfold read_rect.
  rewrite (map_ext_in _ (fun y : nat => take (4 * width c) (drop (4 * width c * y) (bitmap c)))).
  - rewrite concat_rows. apply take_ge. lia.
  - intros y Hy. apply in_seq in Hy.
    rewrite (proj2 (Nat.ltb_lt _ _)) by lia.
    apply fit_exact. rewrite length_take, length_drop. nia.
Qed.



Lemma write_rect_full c img :
  image_width img = width c -> image_height img = height c ->
  length (data img) = (4 * width c * height c)%nat ->
  write_rect c img = data img.
Proof.
  intros Hw Hh Hlen. unfold write_rect. rewrite Hw, Hh.
  rewrite (map_ext_in _ (fun y : nat => take (4 * width c) (drop (4 * width c * y) (data img)))).
  - rewrite concat_rows. apply take_ge. lia.
  - intros y Hy. apply in_seq in Hy.
    rewrite (proj2 (Nat.ltb_lt _ _)) by lia.
    rewrite (drop_ge (fit _ _)) by (rewrite length_fit; lia). rewrite app_nil_r.
    rewrite fit_take by (rewrite length_drop; nia).
    apply take_ge. rewrite length_take, length_drop. nia.
Qed.

End Rect.

(** ** Noise application *)

Section Noise.

Lemma dimensions_nonzero (w h : nat) :
  w <> 0%nat -> h <> 0%nat -> (w =? 0)%nat || (h =? 0)%nat = false.
Proof.
  intros Hw Hh. apply orb_false_intro; apply Nat.eqb_neq; assumption.
Qed.

(** Nothing to do: no context, or a canvas without area (lines 9-11). *)
Lemma noisyFunction_skip g this context s c :
  canvases s !! this = Some c ->
  context = None \/ width c = 0%nat \/ height c = 0%nat ->
  noisyFunction g this context s = (Normal tt, s).
Proof.
  intros Hc Hskip. unfold noisyFunction.
  destruct context as [context|]; [|reflexivity].
  unfold mbind, JS_bind, get. rewrite Hc.
  destruct Hskip as [?|[->| ->]]; [discriminate|reflexivity|].
  rewrite orb_true_r. reflexivity.
Qed.

(** The pixel read refuses on a canvas that is not origin-clean, and the
    exception leaves [noisyFunction]. *)
Lemma noisyFunction_tainted this s c :
  canvases s !! this = Some c ->
  width c <> 0%nat -> height c <> 0%nat -> origin_clean c = false ->
  noisyFunction (Native native_getImageData) this (Some this) s =
  (Throw (SecurityError "getImageData"), s).
Proof.
  intros Hc Hw Hh Hclean. unfold noisyFunction, mbind, JS_bind, get.
  rewrite Hc, dimensions_nonzero by assumption.
  unfold call_getImageData. rewrite Hc, dimensions_nonzero, Hclean by assumption.
  reflexivity.
Qed.

(** The run on a canvas that lets its pixels be read. *)
Lemma noisyFunction_clean this s c :
  canvases s !! this = Some c ->
  width c <> 0%nat -> height c <> 0%nat -> origin_clean c = true ->
  noisyFunction (Native native_getImageData) this (Some this) s =
  let loop := alpha_loop 0 (read_rect c (width c) (height c))
                         (log (PixelRead this (width c) (height c)) s) in
  let pixels := write_rect c (Build_ImageData (width c) (height c) loop.1) in
  (Normal tt,
   log (PixelWrite this pixels)
       (with_canvases (<[this := with_bitmap pixels c]> (canvases s)) loop.2)).
Proof.
  intros Hc Hw Hh Hclean. unfold noisyFunction, mbind, JS_bind, get.
  rewrite Hc, dimensions_nonzero by assumption.
  unfold call_getImageData. rewrite Hc, dimensions_nonzero, Hclean by assumption.
  cbn [data image_width image_height].
  pose proof (alpha_loop_page 0 (read_rect c (width c) (height c))
                (log (PixelRead this (width c) (height c)) s)) as Hpage.
  cbv zeta in *.
  destruct (alpha_loop 0 _ _) as [d s1]. cbn [fst snd] in *.
  destruct Hpage as (_ & _ & Hcs & _). cbn [canvases log] in Hcs.
  unfold putImageData. rewrite Hcs, Hc. reflexivity.
Qed.

End Noise.

(** ** Claims about noise application *)

Section NoiseClaims.

#[local] Ltac Zify.zify_post_hook ::= Z.to_euclidean_division_equations.

(** The bitmap after [noisyFunction] on a canvas with area, through its own
    context: untouched when the read refuses, and byte by byte what the
    loop made otherwise. *)
Lemma noisyFunction_bitmap this s c :
  canvases s !! this = Some c ->
  length (bitmap c) = (4 * width c * height c)%nat ->
  width c <> 0%nat -> height c <> 0%nat ->
  exists pixels,
    canvases (noisyFunction (Native native_getImageData) this (Some this) s).2 !! this
    = Some (with_bitmap pixels c) /\
    length pixels = length (bitmap c) /\
    forall p : nat,
      pixels !! p = bitmap c !! p \/
      (p mod 4 = 3)%nat /\ origin_clean c = true /\
      pixels !! p = noised (random s (drawn s + p / 4)) <$> bitmap c !! p.
Proof.
  intros Hc Hlen Hw Hh. destruct (origin_clean c) eqn:Hclean.
  - rewrite (noisyFunction_clean this s c) by assumption. cbv zeta.
    rewrite read_rect_full by assumption.
    set (loop := alpha_loop 0 (bitmap c) (log (PixelRead this (width c) (height c)) s)).
    assert (length loop.1 = length (bitmap c)) as Hl by apply alpha_loop_length.
    rewrite write_rect_full by (cbn [data image_width image_height]; congruence).
    cbn [data snd canvases log with_canvases].
    exists loop.1. split; [|split; [exact Hl|]].
    + apply list_lookup_insert_eq. eapply lookup_lt_Some, Hc.
    + intros p. unfold loop. rewrite alpha_loop_lookup. cbn [random drawn log].
      case_decide as Hp; [right|left; reflexivity].
      split; [lia|]. split; [reflexivity|]. do 3 f_equal. lia.
  - rewrite (noisyFunction_tainted this s c) by assumption. cbn [snd].
    exists (bitmap c). split; [|split; [reflexivity|left; reflexivity]].
    rewrite Hc. destruct c; reflexivity.
Qed.

Lemma apply_noise_2d g this s c :
  canvases s !! this = Some c -> mode c = Context2D ->
  apply_noise g this s = noisyFunction g this (Some this) s.
Proof.
  intros Hc Hm. unfold apply_noise, mbind, JS_bind, getContext_2d.
  rewrite Hc, Hm. reflexivity.
Qed.




(** C2, as the script behaves.  A fully opaque canvas has, after one noise
    application, every alpha byte in 254, 255 or 0: the draw that adds one
    to 255 wraps around. *)
Theorem opaque_alpha_after_noise this s c :
  canvases s !! this = Some c ->
  well_formed c -> (0 < width c)%nat -> (0 < height c)%nat ->
  mode c = Context2D -> fair s -> opaque (bitmap c) ->
  exists c',
    canvases (apply_noise (Native native_getImageData) this s).2 !! this = Some c' /\
    forall (p : nat) (a' : Z),
      (p mod 4 = 3)%nat -> bitmap c' !! p = Some a' ->
      a' = 254 \/ a' = 255 \/ a' = 0.
Proof.
  intros Hc [Hlen _] Hw Hh Hm Hfair Hop.
  rewrite (apply_noise_2d _ this s c) by assumption.
  destruct (noisyFunction_bitmap this s c Hc Hlen ltac:(lia) ltac:(lia))
    as (pixels & Hc' & Hl & Hpx).
  exists (with_bitmap pixels c). split; [exact Hc'|]. cbn [bitmap with_bitmap].
  intros p a' Hp Ha'.
  assert (p < length (bitmap c))%nat as Hlt.
  { rewrite <- Hl. eapply lookup_lt_Some, Ha'. }
  specialize (Hop p Hp Hlt).
  destruct (Hpx p) as [H|(_ & _ & H)]; rewrite H, Hop in Ha'.
  - injection Ha' as <-. auto.
  - cbn [fmap option_fmap option_map] in Ha'. injection Ha' as <-.
    match goal with
    | |- context [noised ?r 255] =>
        destruct (noised_cases r 255 (Hfair _)) as [Hn|[Hn|Hn]]; rewrite Hn
    end; cbn; auto.
Qed.

Lemma opaque_alpha_after_noise_witness :
  exists c',
    canvases (apply_noise (Native native_getImageData) 0
                (native_page [red_canvas] (fun _ => draw_05))).2 !! 0%nat = Some c' /\
    forall (p : nat) (a' : Z),
      (p mod 4 = 3)%nat -> bitmap c' !! p = Some a' ->
      a' = 254 \/ a' = 255 \/ a' = 0.
Proof.
  apply (opaque_alpha_after_noise 0 (native_page [red_canvas] (fun _ => draw_05))
           red_canvas).
  - reflexivity.
  - split; [reflexivity|]. vm_compute. repeat constructor; discriminate.
  - cbn. lia.
  - cbn. lia.
  - reflexivity.
  - intros n. reflexivity.
  - intros p Hp Hlt. change (length (bitmap red_canvas)) with 400%nat in Hlt.
    do 400 (destruct p as [|p]; [first [reflexivity|discriminate Hp]|]).
    exfalso. lia.
Defined.

(** C2 fails as stated: on the 10 x 10 opaque red canvas a draw of 0.9
    gives the delta +1, and the alpha byte 255 becomes 0. *)
Lemma opaque_red_alpha_becomes_zero :
  let s := native_page [red_canvas] (fun _ => draw_09) in
  Number.is_draw draw_09 = true /\
  noise_of draw_09 = Some 1 /\
  exists c',
    canvases (apply_noise (Native native_getImageData) 0 s).2 !! 0%nat = Some c' /\
    bitmap c' !! 3%nat = Some 0 /\
    ~ (forall (p : nat) (a' : Z),
          (p mod 4 = 3)%nat -> bitmap c' !! p = Some a' -> a' = 254 \/ a' = 255).
Proof.
  cbv zeta. split; [reflexivity|]. split; [reflexivity|].
  eexists. split; [vm_compute; reflexivity|]. split; [reflexivity|].
  intros H. destruct (H 3%nat 0 eq_refl eq_refl); discriminate.
Qed.

End NoiseClaims.

(** ** Claims about the loop *)

Section LoopClaims.

#[local] Ltac Zify.zify_post_hook ::= Z.to_euclidean_division_equations.

(** C8.  For a draw [r] of [Math.random], that is a binary64 value in
    [0, 1), the delta [Math.floor(r * 3) - 1] is -1, 0 or +1; and one
    invocation of the loop makes one draw for each pixel, the alpha byte
    of pixel [j] being computed from draw number [j] of the invocation. *)
Theorem noise_delta_one_per_pixel (r : Number.float64) (d : list Z) (s : page) (j : nat) :
  Number.is_draw r = true ->
  (noise_of r = Some (-1) \/ noise_of r = Some 0 \/ noise_of r = Some 1) /\
  drawn (alpha_loop 0 d s).2 = (drawn s + (length d + 3) / 4)%nat /\
  (alpha_loop 0 d s).1 !! (4 * j + 3)%nat =
  (fun a => Number.ToUint8Clamp
              (noisy_alpha (Some a) (noise_of (random s (drawn s + j)))))
    <$> d !! (4 * j + 3)%nat.
Proof.
  intros Hr. split; [apply noise_of_range, Hr|]. split.
  - rewrite alpha_loop_drawn. do 2 f_equal. lia.
  - rewrite alpha_loop_lookup. case_decide as Hd; [|exfalso; lia].
    replace ((4 * j + 3 - 0) / 4)%nat with j by lia. reflexivity.
Qed.

Lemma noise_delta_one_per_pixel_witness :
  (noise_of draw_09 = Some (-1) \/ noise_of draw_09 = Some 0 \/ noise_of draw_09 = Some 1) /\
  drawn (alpha_loop 0 [10; 20; 30; 40; 50; 60; 70; 80]
           (native_page [] (fun _ => draw_09))).2 = 2%nat /\
  (alpha_loop 0 [10; 20; 30; 40; 50; 60; 70; 80]
     (native_page [] (fun _ => draw_09))).1 !! 7%nat = Some 81.
Proof.
  apply (noise_delta_one_per_pixel draw_09 [10; 20; 30; 40; 50; 60; 70; 80]
           (native_page [] (fun _ => draw_09)) 1).
  reflexivity.
Defined.

(** C9.  On a buffer whose length is a multiple of 4 the loop index runs
    over the multiples of 4 below the length, and every element read and
    written, at the index plus 3, is inside the buffer. *)
Theorem loop_accesses_in_bounds (d : list Z) (s : page) :
  (length d mod 4 = 0)%nat ->
  exists evs,
    trace (alpha_loop 0 d s).2 = trace s ++ evs /\
    Forall (fun ev => exists i : nat,
                accessed ev = Some (i + 3)%nat /\
                (i mod 4 = 0)%nat /\ (i < length d)%nat /\ (i + 3 < length d)%nat) evs.
Proof.
  intros Hlen. destruct (alpha_loop_trace 0 d s) as (evs & Htr & Hall).
  exists evs. split; [exact Htr|].
  eapply Forall_impl; [exact Hall|]. cbn beta.
  intros ev (t & Hacc & Hlt). exists (4 * t)%nat.
  split; [rewrite Hacc; f_equal|]; lia.
Qed.

Lemma loop_accesses_in_bounds_witness :
  exists evs,
    trace (alpha_loop 0 [10; 20; 30; 40; 50; 60; 70; 80]
             (native_page [] (fun _ => draw_09))).2 = [] ++ evs /\
    Forall (fun ev => exists i : nat,
                accessed ev = Some (i + 3)%nat /\
                (i mod 4 = 0)%nat /\ (i < 8)%nat /\ (i + 3 < 8)%nat) evs.
Proof.
  apply (loop_accesses_in_bounds [10; 20; 30; 40; 50; 60; 70; 80]
           (native_page [] (fun _ => draw_09))).
  reflexivity.
Defined.

(** C10.  The alpha byte of pixel [j] after the loop depends on the alpha
    byte of pixel [j] before it and on draw number [j] only: two buffers
    that agree there give, under the same draws, the same byte there,
    whatever their other bytes are. *)
Theorem alpha_noninterference (d1 d2 : list Z) (s1 s2 : page) (j : nat) :
  random s1 = random s2 -> drawn s1 = drawn s2 ->
  d1 !! (4 * j + 3)%nat = d2 !! (4 * j + 3)%nat ->
  (alpha_loop 0 d1 s1).1 !! (4 * j + 3)%nat = (alpha_loop 0 d2 s2).1 !! (4 * j + 3)%nat /\
  (alpha_loop 0 d1 s1).1 !! (4 * j + 3)%nat =
  noised (random s1 (drawn s1 + j)) <$> d1 !! (4 * j + 3)%nat.
Proof.
  intros Hr Hd Ha. rewrite !alpha_loop_lookup.
  case_decide as Hj; [|exfalso; lia].
  rewrite Hr, Hd, Ha. split; [reflexivity|].
  replace ((4 * j + 3 - 0) / 4)%nat with j by lia. reflexivity.
Qed.

Lemma alpha_noninterference_witness :
  (alpha_loop 0 [1; 2; 3; 40; 5; 6; 7; 80] (native_page [] (fun _ => draw_01))).1 !! 7%nat
  = (alpha_loop 0 [9; 9; 9; 99; 0; 0; 0; 80; 4; 4; 4; 4]
       (native_page [pixel_canvas] (fun _ => draw_01))).1 !! 7%nat /\
  (alpha_loop 0 [1; 2; 3; 40; 5; 6; 7; 80] (native_page [] (fun _ => draw_01))).1 !! 7%nat
  = Some 79.
Proof.
  apply (alpha_noninterference [1; 2; 3; 40; 5; 6; 7; 80]
           [9; 9; 9; 99; 0; 0; 0; 80; 4; 4; 4; 4]
           (native_page [] (fun _ => draw_01))
           (native_page [pixel_canvas] (fun _ => draw_01)) 1);
    reflexivity.
Defined.

End LoopClaims.

(** ** Installation *)

Section Installation.

Lemma install_patches s xp cp :
  CanvasRenderingContext2D s = Some xp -> HTMLCanvasElement s = Some cp ->
  install s =
  (Normal tt,
   with_HTMLCanvasElement
     (CanvasProto (Wrapper (getImageData xp) (toDataURL cp))
                  (Wrapper (getImageData xp) (toBlob cp))) s).
Proof.
  intros Hx Hp. destruct s. cbn in Hx, Hp. subst. reflexivity.
Qed.


Lemma canvas_spoof_patches s xp cp :
  CanvasRenderingContext2D s = Some xp -> HTMLCanvasElement s = Some cp ->
  canvas_spoof s =
  (Normal tt,
   with_HTMLCanvasElement
     (CanvasProto (Wrapper (getImageData xp) (toDataURL cp))
                  (Wrapper (getImageData xp) (toBlob cp))) s).
Proof.
  intros Hx Hp. unfold canvas_spoof, try_catch.
  rewrite (install_patches s xp cp Hx Hp). reflexivity.
Qed.



End Installation.

(** ** The patched exports *)

Section Wrappers.

(** After the script, a method call reaches the wrapper of what the
    property held before. *)
Lemma method_after_script s xp cp slot this args :
  CanvasRenderingContext2D s = Some xp -> HTMLCanvasElement s = Some cp ->
  slot = toDataURL \/ slot = toBlob ->
  method slot this args (canvas_spoof s).2 =
  call (Wrapper (getImageData xp) (slot cp)) this args (canvas_spoof s).2.
Proof.
  intros Hx Hp Hslot. rewrite (canvas_spoof_patches s xp cp Hx Hp). cbn [snd].
  unfold method, mbind, JS_bind, read_export. cbn [HTMLCanvasElement with_HTMLCanvasElement].
  destruct Hslot as [-> | ->]; reflexivity.
Qed.



Lemma pristine_script s :
  pristine s ->
  canvas_spoof s =
  (Normal tt,
   with_HTMLCanvasElement
     (CanvasProto (Wrapper (Native native_getImageData) (Native native_toDataURL))
                  (Wrapper (Native native_getImageData) (Native native_toBlob))) s).
Proof. intros [Hx Hp]. apply (canvas_spoof_patches s _ _ Hx Hp). Qed.

Lemma pristine_method s slot this args :
  pristine s -> slot = toDataURL \/ slot = toBlob ->
  method slot this args (canvas_spoof s).2 =
  (apply_noise (Native native_getImageData) this;;
   call (slot (CanvasProto (Native native_toDataURL) (Native native_toBlob))) this args)
    (canvas_spoof s).2.
Proof.
  intros [Hx Hp] Hslot.
  rewrite (method_after_script s _ _ slot this args Hx Hp Hslot). reflexivity.
Qed.

(** C1, as the script behaves.  When the pixel read refuses (a canvas
    with area and a 2D context that is not origin-clean), the wrapper does
    not catch the exception: it reaches the caller, nothing is logged, and
    the captured export is not called; the page is as before the call. *)
Theorem pixel_read_exception_propagates s this c args :
  pristine s -> canvases s !! this = Some c ->
  mode c = Context2D -> (0 < width c)%nat -> (0 < height c)%nat ->
  origin_clean c = false ->
  let s' := (canvas_spoof s).2 in
  method toDataURL this args s' = (Throw (SecurityError "getImageData"), s') /\
  method toBlob this args s' = (Throw (SecurityError "getImageData"), s').
Proof.
  intros Hs Hc Hm Hw Hh Hclean s'. unfold s'.
  rewrite !(pristine_method s _ this args Hs) by auto.
  rewrite (pristine_script s Hs). cbn [snd].
  set (sp := with_HTMLCanvasElement _ s).
  assert (canvases sp !! this = Some c) as Hc' by exact Hc.
  unfold mbind, JS_bind.
  rewrite (apply_noise_2d _ this sp c Hc' Hm).
  rewrite (noisyFunction_tainted this sp c Hc' ltac:(lia) ltac:(lia) Hclean).
  auto.
Qed.

Lemma pixel_read_exception_propagates_witness :
  let s' := (canvas_spoof (native_page [tainted_canvas] (fun _ => draw_05))).2 in
  method toDataURL 0 [] s' = (Throw (SecurityError "getImageData"), s') /\
  method toBlob 0 [] s' = (Throw (SecurityError "getImageData"), s').
Proof.
  apply (pixel_read_exception_propagates
           (native_page [tainted_canvas] (fun _ => draw_05)) 0 tainted_canvas []).
  - split; reflexivity.
  - reflexivity.
  - reflexivity.
  - cbn. lia.
  - cbn. lia.
  - reflexivity.
Defined.

(** C1 fails as stated: on a tainted canvas the patched [toDataURL] throws
    the exception of the pixel read; the log of the page stays empty, so
    nothing was logged and the captured export was never called, and the
    caller does not get the outcome of the native export. *)
Lemma tainted_export_not_forwarded :
  let s' := (canvas_spoof (native_page [tainted_canvas] (fun _ => draw_05))).2 in
  (method toDataURL 0 [] s').1 = Throw (SecurityError "getImageData") /\
  trace (method toDataURL 0 [] s').2 = [] /\
  (forall e, ~ In (ConsoleError message e) (trace (method toDataURL 0 [] s').2)) /\
  ~ In (NativeCall native_toDataURL 0 []) (trace (method toDataURL 0 [] s').2) /\
  (native_export native_toDataURL 0 [] s').1 = Throw (SecurityError "toDataURL") /\
  (method toDataURL 0 [] s').1 <> (native_export native_toDataURL 0 [] s').1.
Proof.
  cbv zeta.
  assert (trace (method toDataURL 0 []
                   (canvas_spoof (native_page [tainted_canvas] (fun _ => draw_05))).2).2 = [])
    as Htrace by reflexivity.
  rewrite Htrace.
  split; [reflexivity|]. split; [reflexivity|].
  split; [intros e []|]. split; [intros []|].
  split; [reflexivity|]. discriminate.
Qed.

End Wrappers.

(** ** Canvases without area or without a 2D context, and a second run *)

Section Degenerate.


Lemma native_export_canvases f this args s :
  canvases (native_export f this args s).2 = canvases s.
Proof.
  unfold native_export. cbn [canvases log].
  destruct (canvases s !! this) as [c|]; [|reflexivity].
  destruct f; [reflexivity| |].
  - destruct (origin_clean c); reflexivity.
  - destruct args as [|[| | |callback] options]; try reflexivity.
    destruct (origin_clean c); reflexivity.
Qed.






(** C3, as the script behaves.  The script keeps no record of having run:
    a second run captures the wrappers of the first run as the originals
    and wraps them again, so that afterwards one export call applies noise
    twice before it reaches what the property held at the start. *)
Theorem second_run_wraps_again s xp cp this args :
  CanvasRenderingContext2D s = Some xp -> HTMLCanvasElement s = Some cp ->
  let g := getImageData xp in
  let s2 := (canvas_spoof (canvas_spoof s).2).2 in
  export_of toDataURL s2 = Wrapper g (Wrapper g (toDataURL cp)) /\
  export_of toBlob s2 = Wrapper g (Wrapper g (toBlob cp)) /\
  method toDataURL this args s2 =
    (apply_noise g this;; apply_noise g this;; call (toDataURL cp) this args) s2 /\
  method toBlob this args s2 =
    (apply_noise g this;; apply_noise g this;; call (toBlob cp) this args) s2.
Proof.
  intros Hx Hp g s2. unfold s2, g.
  rewrite (canvas_spoof_patches s xp cp Hx Hp). cbn [snd].
  set (s1 := with_HTMLCanvasElement _ s).
  rewrite (canvas_spoof_patches s1 xp _ Hx eq_refl). cbn [snd toDataURL toBlob].
  repeat split.
Qed.

Lemma second_run_wraps_again_witness :
  let g := Native native_getImageData in
  let s2 := (canvas_spoof (canvas_spoof (native_page [pixel_canvas] (fun _ => draw_09))).2).2 in
  export_of toDataURL s2 = Wrapper g (Wrapper g (Native native_toDataURL)) /\
  export_of toBlob s2 = Wrapper g (Wrapper g (Native native_toBlob)) /\
  method toDataURL 0 [] s2 =
    (apply_noise g 0;; apply_noise g 0;; call (Native native_toDataURL) 0 []) s2 /\
  method toBlob 0 [] s2 =
    (apply_noise g 0;; apply_noise g 0;; call (Native native_toBlob) 0 []) s2.
Proof.
  apply (second_run_wraps_again (native_page [pixel_canvas] (fun _ => draw_09))
           (Context2DProto (Native native_getImageData))
           (CanvasProto (Native native_toDataURL) (Native native_toBlob)) 0 []);
    reflexivity.
Defined.

(** C3 fails as stated: after two runs the property holds a wrapper of a
    wrapper, the second run was no no-op, and one call of [toDataURL] on a
    one-pixel canvas makes two draws and moves the alpha byte from 40 to
    42, where after one run it makes one draw and moves it to 41. *)
Lemma second_run_doubles_noise :
  let s0 := native_page [pixel_canvas] (fun _ => draw_09) in
  let s1 := (canvas_spoof s0).2 in
  let s2 := (canvas_spoof s1).2 in
  export_of toDataURL s2
    = Wrapper (Native native_getImageData)
              (Wrapper (Native native_getImageData) (Native native_toDataURL)) /\
  s2 <> s1 /\
  drawn (method toDataURL 0 [] s1).2 = 1%nat /\
  drawn (method toDataURL 0 [] s2).2 = 2%nat /\
  bitmap <$> canvases (method toDataURL 0 [] s1).2 = [[10; 20; 30; 41]] /\
  bitmap <$> canvases (method toDataURL 0 [] s2).2 = [[10; 20; 30; 42]].
Proof.
  cbv zeta. split; [reflexivity|]. split; [|repeat split; reflexivity].
  intros H. apply (f_equal (export_of toDataURL)) in H. discriminate H.
Qed.

End Degenerate.

(** * Further properties of the script *)

(** ** The byte that line 17 stores *)

Section Wraparound.

(** The reduction [& 255] wraps instead of clamping: with the delta -1 a
    fully transparent pixel (alpha 0) becomes fully opaque (255), and with
    the delta +1 a fully opaque pixel becomes fully transparent. *)
Theorem alpha_wraps_at_both_ends (r : Number.float64) :
  Number.is_draw r = true ->
  (noise_of r = Some (-1) -> noised r 0 = 255) /\
  (noise_of r = Some 1 -> noised r 255 = 0) /\
  (forall a : Z, byte a -> exists delta : Z,
        noise_of r = Some delta /\ -1 <= delta <= 1 /\
        noised r a = (a + delta) mod 256).
Proof.
  intros Hr. unfold noised. rewrite !ToUint8Clamp_noisy_alpha.
  split; [intros ->; reflexivity|]. split; [intros ->; reflexivity|].
  intros a _. rewrite ToUint8Clamp_noisy_alpha.
  destruct (noise_of_range r Hr) as [H|[H|H]]; rewrite H;
    eexists; (split; [reflexivity|]); (split; [lia|]); apply noisy_alpha_mod.
Qed.

Lemma alpha_wraps_at_both_ends_witness :
  noised draw_01 0 = 255 /\ noised draw_09 255 = 0.
Proof.
  split.
  - apply (alpha_wraps_at_both_ends draw_01); reflexivity.
  - apply (alpha_wraps_at_both_ends draw_09); reflexivity.
Defined.

End Wraparound.

(** ** What noise application leaves alone *)

Section Frame.

Lemma call_getImageData_canvases g context sw sh s :
  canvases (call_getImageData g context sw sh s).2 = canvases s.
Proof.
  unfold call_getImageData.
  destruct g as [|[| |]|]; try reflexivity.
  destruct (canvases s !! context) as [c|]; [|reflexivity].
  destruct ((sw =? 0)%nat || (sh =? 0)%nat); [reflexivity|].
  destruct (origin_clean c); reflexivity.
Qed.

(** [noisyFunction] writes to the canvas of the context it was given and to
    no other, whatever [getImageData] it captured. *)
Lemma noisyFunction_other g canvas context s (other : nat) :
  context <> Some other ->
  canvases (noisyFunction g canvas context s).2 !! other = canvases s !! other.
Proof.
  intros Hother. unfold noisyFunction.
  destruct context as [context|]; [|reflexivity].
  unfold mbind, JS_bind, get.
  destruct (canvases s !! canvas) as [c|]; [|reflexivity].
  destruct ((width c =? 0)%nat || (height c =? 0)%nat); [reflexivity|].
  pose proof (call_getImageData_canvases g context (width c) (height c) s) as Hg.
  destruct (call_getImageData g context (width c) (height c) s) as [[img|e] s1];
    cbn [snd] in Hg; [|cbn [snd]; now rewrite Hg].
  pose proof (alpha_loop_page 0 (data img) s1) as Hl. cbv zeta in Hl.
  destruct (alpha_loop 0 (data img) s1) as [d s2]. cbn [snd] in Hl.
  destruct Hl as (_ & _ & Hl & _).
  unfold putImageData. destruct (canvases s2 !! context) as [c2|]; cbn [snd canvases log with_canvases].
  - rewrite list_lookup_insert_ne by congruence. now rewrite Hl, Hg.
  - now rewrite Hl, Hg.
Qed.

Lemma apply_noise_other g this s (other : nat) :
  other <> this ->
  canvases (apply_noise g this s).2 !! other = canvases s !! other.
Proof.
  intros Hother. unfold apply_noise, mbind, JS_bind.
  unfold getContext_2d at 1.
  destruct (canvases s !! this) as [c|] eqn:Hc; [|reflexivity].
  destruct (mode c).
  - rewrite noisyFunction_other by congruence.
    cbn [canvases with_canvases]. apply list_lookup_insert_ne. congruence.
  - apply noisyFunction_other. congruence.
  - apply noisyFunction_other. congruence.
Qed.

(** After the script has run on a pristine page, a method call is the noise
    step followed by the native export. *)
Lemma patched_run s slot f this args :
  pristine s ->
  slot = toDataURL /\ f = native_toDataURL \/ slot = toBlob /\ f = native_toBlob ->
  method slot this args (canvas_spoof s).2 =
  match apply_noise (Native native_getImageData) this (canvas_spoof s).2 with
  | (Normal _, s1) => native_export f this args s1
  | (Throw e, s1) => (Throw e, s1)
  end.
Proof.
  intros Hs Hslot.
  rewrite (pristine_method s slot this args Hs) by (destruct Hslot as [[? _]|[? _]]; auto).
  destruct Hslot as [[-> ->]|[-> ->]]; reflexivity.
Qed.

(** A patched export touches no canvas but its receiver. *)
Theorem patched_export_touches_only_receiver s this args (other : nat) :
  pristine s -> other <> this ->
  let s' := (canvas_spoof s).2 in
  canvases (method toDataURL this args s').2 !! other = canvases s' !! other /\
  canvases (method toBlob this args s').2 !! other = canvases s' !! other.
Proof.
  intros Hs Hother s'. unfold s'.
  rewrite (patched_run s toDataURL native_toDataURL this args Hs) by auto.
  rewrite (patched_run s toBlob native_toBlob this args Hs) by auto.
  pose proof (apply_noise_other (Native native_getImageData) this (canvas_spoof s).2
                other Hother) as Hn.
  destruct (apply_noise _ this _) as [[[]|e] s1]; cbn [snd] in Hn |- *;
    rewrite ?native_export_canvases; auto.
Qed.

Lemma patched_export_touches_only_receiver_witness :
  let s' := (canvas_spoof (native_page [pixel_canvas; red_canvas] (fun _ => draw_09))).2 in
  canvases (method toDataURL 0 [] s').2 !! 1%nat = Some red_canvas /\
  canvases (method toBlob 0 [ArgFunction 7] s').2 !! 1%nat = Some red_canvas.
Proof.
  split.
  - apply (patched_export_touches_only_receiver
             (native_page [pixel_canvas; red_canvas] (fun _ => draw_09)) 0 [] 1).
    + split; reflexivity.
    + lia.
  - apply (patched_export_touches_only_receiver
             (native_page [pixel_canvas; red_canvas] (fun _ => draw_09)) 0 [ArgFunction 7] 1).
    + split; reflexivity.
    + lia.
Defined.

End Frame.

(** ** The receiver after a patched export *)

Section Receiver.

#[local] Ltac Zify.zify_post_hook ::= Z.to_euclidean_division_equations.

(** The receiver after line 25: possibly given its 2D context, its bytes
    either as they were or the noised alpha bytes. *)
Lemma apply_noise_receiver this s c :
  canvases s !! this = Some c ->
  length (bitmap c) = (4 * width c * height c)%nat ->
  exists pixels,
    canvases (apply_noise (Native native_getImageData) this s).2 !! this
    = Some (Canvas (width c) (height c)
                   (match mode c with NoContext => Context2D | m => m end)
                   (origin_clean c) pixels) /\
    length pixels = length (bitmap c) /\
    forall p : nat,
      pixels !! p = bitmap c !! p \/
      (p mod 4 = 3)%nat /\ origin_clean c = true /\
      pixels !! p = noised (random s (drawn s + p / 4)) <$> bitmap c !! p.
Proof.
  intros Hc Hlen.
  assert (forall s1 c1 m,
             canvases s1 !! this = Some c1 ->
             c1 = Canvas (width c) (height c) m (origin_clean c) (bitmap c) ->
             random s1 = random s -> drawn s1 = drawn s ->
             exists pixels,
               canvases (noisyFunction (Native native_getImageData) this (Some this) s1).2
               !! this = Some (Canvas (width c) (height c) m (origin_clean c) pixels) /\
               length pixels = length (bitmap c) /\
               forall p : nat,
                 pixels !! p = bitmap c !! p \/
                 (p mod 4 = 3)%nat /\ origin_clean c = true /\
                 pixels !! p = noised (random s (drawn s + p / 4)) <$> bitmap c !! p)
    as Hrun.
  { intros s1 c1 m Hc1 -> Hr Hd.
    destruct (decide (width c = 0 \/ height c = 0)%nat) as [Hz|Hnz].
    - rewrite (noisyFunction_skip _ this (Some this) s1 _ Hc1) by (cbn; tauto).
      exists (bitmap c). cbn [snd]. auto.
    - destruct (noisyFunction_bitmap this s1 _ Hc1) as (pixels & H1 & H2 & H3);
        cbn [width height bitmap]; try lia.
      exists pixels. cbn [with_bitmap width height mode origin_clean bitmap] in *.
      rewrite Hr, Hd in H3. auto. }
  unfold apply_noise, mbind, JS_bind. unfold getContext_2d at 1. rewrite Hc.
  destruct (mode c) eqn:Hm.
  - edestruct (Hrun (with_canvases (<[this := with_mode Context2D c]> (canvases s)) s))
      as (pixels & H1 & H2 & H3); [| reflexivity | reflexivity | reflexivity |].
    + apply list_lookup_insert_eq. eapply lookup_lt_Some, Hc.
    + exists pixels. auto.
  - edestruct (Hrun s c Context2D Hc) as (pixels & H1 & H2 & H3);
      [clear Hrun; destruct c; cbn in Hm |- *; subst; reflexivity | reflexivity | reflexivity |].
    exists pixels. auto.
  - exists (bitmap c). cbn [noisyFunction mret JS_ret snd].
    rewrite Hc. split; [clear Hrun; destruct c; cbn in Hm |- *; subst; reflexivity|]. auto.
Qed.

Lemma native_export_receiver f this args s :
  canvases (native_export f this args s).2 !! this = canvases s !! this.
Proof. now rewrite native_export_canvases. Qed.

(** The receiver after a patched export, whether the call returns or throws. *)
Lemma patched_receiver s slot f this args c :
  pristine s ->
  slot = toDataURL /\ f = native_toDataURL \/ slot = toBlob /\ f = native_toBlob ->
  canvases s !! this = Some c ->
  length (bitmap c) = (4 * width c * height c)%nat ->
  exists pixels,
    canvases (method slot this args (canvas_spoof s).2).2 !! this
    = Some (Canvas (width c) (height c)
                   (match mode c with NoContext => Context2D | m => m end)
                   (origin_clean c) pixels) /\
    length pixels = length (bitmap c) /\
    forall p : nat,
      pixels !! p = bitmap c !! p \/
      (p mod 4 = 3)%nat /\ origin_clean c = true /\
      pixels !! p = noised (random s (drawn s + p / 4)) <$> bitmap c !! p.
Proof.
  intros Hs Hslot Hc Hlen. rewrite (patched_run s slot f this args Hs Hslot).
  rewrite (pristine_script s Hs). cbn [snd].
  set (sp := with_HTMLCanvasElement _ s).
  destruct (apply_noise_receiver this sp c Hc Hlen) as (pixels & H1 & H3 & H4).
  exists pixels.
  destruct (apply_noise _ this sp) as [[[]|e] s1]; cbn [snd] in H1 |- *;
    rewrite ?native_export_receiver; auto.
Qed.

(** Well-formedness is an invariant of the patched exports: the receiver
    keeps its width, height and origin-clean flag, its bitmap keeps four
    bytes for each pixel, and every stored value is a byte. *)
Theorem patched_export_keeps_well_formed s this args c :
  pristine s -> canvases s !! this = Some c -> well_formed c ->
  let s' := (canvas_spoof s).2 in
  (exists c', canvases (method toDataURL this args s').2 !! this = Some c' /\
              well_formed c' /\ width c' = width c /\ height c' = height c /\
              origin_clean c' = origin_clean c) /\
  (exists c', canvases (method toBlob this args s').2 !! this = Some c' /\
              well_formed c' /\ width c' = width c /\ height c' = height c /\
              origin_clean c' = origin_clean c).
Proof.
  intros Hs Hc [Hlen Hbytes] s'. unfold s'.
  assert (forall slot f,
             slot = toDataURL /\ f = native_toDataURL \/ slot = toBlob /\ f = native_toBlob ->
             exists c', canvases (method slot this args (canvas_spoof s).2).2 !! this = Some c' /\
                        well_formed c' /\ width c' = width c /\ height c' = height c /\
                        origin_clean c' = origin_clean c) as H.
  { intros slot f Hslot.
    destruct (patched_receiver s slot f this args c Hs Hslot Hc Hlen)
      as (pixels & H1 & H3 & H4).
    eexists. split; [exact H1|].
    split; [|cbn [width height origin_clean]; auto].
    split; cbn [width height bitmap]; [rewrite H3; exact Hlen|].
    apply Forall_lookup. intros p x Hx.
    destruct (H4 p) as [Hp|(_ & _ & Hp)]; rewrite Hp in Hx.
    - eapply Forall_lookup in Hbytes; eauto.
    - destruct (bitmap c !! p); [|discriminate]. cbn in Hx.
      injection Hx as <-. apply noised_byte. }
  split; [apply (H toDataURL native_toDataURL)|apply (H toBlob native_toBlob)]; auto.
Qed.

Lemma patched_export_keeps_well_formed_witness :
  let s' := (canvas_spoof (native_page [red_canvas] (fun _ => draw_01))).2 in
  (exists c', canvases (method toDataURL 0 [] s').2 !! 0%nat = Some c' /\
              well_formed c' /\ width c' = 10%nat /\ height c' = 10%nat /\
              origin_clean c' = true) /\
  (exists c', canvases (method toBlob 0 [] s').2 !! 0%nat = Some c' /\
              well_formed c' /\ width c' = 10%nat /\ height c' = 10%nat /\
              origin_clean c' = true).
Proof.
  apply (patched_export_keeps_well_formed
           (native_page [red_canvas] (fun _ => draw_01)) 0 [] red_canvas).
  - split; reflexivity.
  - reflexivity.
  - split; [reflexivity|]. vm_compute. repeat constructor; discriminate.
Defined.

(** Line 25 asks for the 2D context of the receiver, which makes one: a
    canvas that had no context is bound to a 2D context by a patched export,
    where the native export leaves it without one. *)
Theorem patched_export_binds_2d_context s this args c :
  pristine s -> canvases s !! this = Some c ->
  length (bitmap c) = (4 * width c * height c)%nat ->
  mode c = NoContext ->
  let s' := (canvas_spoof s).2 in
  mode <$> canvases (method toDataURL this args s').2 !! this = Some Context2D /\
  mode <$> canvases (method toBlob this args s').2 !! this = Some Context2D /\
  mode <$> canvases (native_export native_toDataURL this args s).2 !! this = Some NoContext /\
  mode <$> canvases (native_export native_toBlob this args s).2 !! this = Some NoContext.
Proof.
  intros Hs Hc Hlen Hm s'. unfold s'.
  destruct (patched_receiver s toDataURL native_toDataURL this args c Hs ltac:(auto) Hc Hlen)
    as (p1 & H1 & _).
  destruct (patched_receiver s toBlob native_toBlob this args c Hs ltac:(auto) Hc Hlen)
    as (p2 & H2 & _).
  rewrite H1, H2, !native_export_receiver, Hc. cbn [fmap option_fmap option_map mode].
  rewrite Hm. auto.
Qed.

Lemma patched_export_binds_2d_context_witness :
  let s := native_page [empty_canvas] (fun _ => draw_05) in
  let s' := (canvas_spoof s).2 in
  mode <$> canvases (method toDataURL 0 [] s').2 !! 0%nat = Some Context2D /\
  mode <$> canvases (method toBlob 0 [] s').2 !! 0%nat = Some Context2D /\
  mode <$> canvases (native_export native_toDataURL 0 [] s).2 !! 0%nat = Some NoContext /\
  mode <$> canvases (native_export native_toBlob 0 [] s).2 !! 0%nat = Some NoContext.
Proof.
  apply (patched_export_binds_2d_context
           (native_page [empty_canvas] (fun _ => draw_05)) 0 [] empty_canvas).
  - split; reflexivity.
  - reflexivity.
  - reflexivity.
  - reflexivity.
Defined.

End Receiver.

(** ** One pass of noise, event by event *)

Section Pass.

#[local] Ltac Zify.zify_post_hook ::= Z.to_euclidean_division_equations.




End Pass.

(** ** What the caller of a patched export gets *)

Section Outcome.




End Outcome.

(** ** The exported image *)

Section Exported.

#[local] Ltac Zify.zify_post_hook ::= Z.to_euclidean_division_equations.



End Exported.

(** ** More runs of the script, and a missing export *)

Section Runs.

(** Calling [n] wrappers stacked on a function applies noise [n] times and
    then calls the function. *)
Lemma call_stacked n g v this args s :
  call (Nat.iter n (Wrapper g) v) this args s =
  Nat.iter n (fun rest : JS result => apply_noise g this;; rest) (call v this args) s.
Proof.
  revert s. induction n as [|n IH]; intros s; [reflexivity|].
  rewrite !Nat.iter_succ. cbn [call]. unfold mbind, JS_bind.
  destruct (apply_noise g this s) as [[[]|e] s1]; [apply IH|reflexivity].
Qed.

(** Every run of the script adds one layer: after [n] runs the export
    properties hold [n] wrappers stacked on what they held at the start, and
    one call applies noise [n] times before it reaches that. *)
Theorem runs_stack_wrappers n s xp cp this args :
  CanvasRenderingContext2D s = Some xp -> HTMLCanvasElement s = Some cp ->
  let g := getImageData xp in
  let sn := Nat.iter n (fun s : page => (canvas_spoof s).2) s in
  export_of toDataURL sn = Nat.iter n (Wrapper g) (toDataURL cp) /\
  export_of toBlob sn = Nat.iter n (Wrapper g) (toBlob cp) /\
  method toDataURL this args sn =
    Nat.iter n (fun rest : JS result => apply_noise g this;; rest)
             (call (toDataURL cp) this args) sn /\
  method toBlob this args sn =
    Nat.iter n (fun rest : JS result => apply_noise g this;; rest)
             (call (toBlob cp) this args) sn.
Proof.
  intros Hx Hp g sn.
  assert (CanvasRenderingContext2D sn = Some xp /\
          HTMLCanvasElement sn
          = Some (CanvasProto (Nat.iter n (Wrapper g) (toDataURL cp))
                              (Nat.iter n (Wrapper g) (toBlob cp)))) as [Hxn Hpn].
  { unfold sn. induction n as [|n [IHx IHp]].
    - cbn. split; [exact Hx|]. rewrite Hp. destruct cp; reflexivity.
    - rewrite !Nat.iter_succ.
      rewrite (canvas_spoof_patches _ _ _ IHx IHp). cbn. auto. }
  unfold export_of, method, mbind, JS_bind, read_export. rewrite Hpn.
  cbn [toDataURL toBlob]. rewrite !call_stacked. auto.
Qed.

Lemma runs_stack_wrappers_witness :
  let g := Native native_getImageData in
  let sn := Nat.iter 3 (fun s : page => (canvas_spoof s).2)
                     (native_page [pixel_canvas] (fun _ => draw_09)) in
  export_of toDataURL sn = Wrapper g (Wrapper g (Wrapper g (Native native_toDataURL))) /\
  export_of toBlob sn = Wrapper g (Wrapper g (Wrapper g (Native native_toBlob))) /\
  method toDataURL 0 [] sn =
    (apply_noise g 0;; apply_noise g 0;; apply_noise g 0;;
     call (Native native_toDataURL) 0 []) sn /\
  method toBlob 0 [] sn =
    (apply_noise g 0;; apply_noise g 0;; apply_noise g 0;;
     call (Native native_toBlob) 0 []) sn.
Proof.
  apply (runs_stack_wrappers 3 (native_page [pixel_canvas] (fun _ => draw_09))
           (Context2DProto (Native native_getImageData))
           (CanvasProto (Native native_toDataURL) (Native native_toBlob)) 0 []);
    reflexivity.
Defined.

(** Where the browser has no [toBlob], the script still installs a wrapper
    for it: a call that threw a TypeError at once before the script now
    applies noise to the canvas first and never returns normally. *)
Theorem missing_toBlob_is_wrapped s xp v this args :
  CanvasRenderingContext2D s = Some xp ->
  HTMLCanvasElement s = Some (CanvasProto v Undefined) ->
  let s' := (canvas_spoof s).2 in
  method toBlob this args s = (Throw (TypeError "undefined is not a function"), s) /\
  method toBlob this args s' =
    match apply_noise (getImageData xp) this s' with
    | (Normal _, s1) => (Throw (TypeError "undefined is not a function"), s1)
    | (Throw e, s1) => (Throw e, s1)
    end /\
  forall r, (method toBlob this args s').1 <> Normal r.
Proof.
  intros Hx Hp s'. unfold s'.
  rewrite (method_after_script s xp _ toBlob this args Hx Hp) by auto.
  split; [|split].
  - unfold method, mbind, JS_bind, read_export. rewrite Hp. reflexivity.
  - reflexivity.
  - intros r. cbn [call toBlob]. unfold mbind, JS_bind.
    destruct (apply_noise _ this _) as [[[]|e] s1]; discriminate.
Qed.

Lemma missing_toBlob_is_wrapped_witness :
  let s := Page (Some (Context2DProto (Native native_getImageData)))
                (Some (CanvasProto (Native native_toDataURL) Undefined))
                [pixel_canvas] (fun _ => draw_09) 0 [] in
  let s' := (canvas_spoof s).2 in
  method toBlob 0 [ArgFunction 1] s = (Throw (TypeError "undefined is not a function"), s) /\
  method toBlob 0 [ArgFunction 1] s' =
    match apply_noise (Native native_getImageData) 0 s' with
    | (Normal _, s1) => (Throw (TypeError "undefined is not a function"), s1)
    | (Throw e, s1) => (Throw e, s1)
    end /\
  forall r, (method toBlob 0 [ArgFunction 1] s').1 <> Normal r.
Proof.
  apply (missing_toBlob_is_wrapped
           (Page (Some (Context2DProto (Native native_getImageData)))
                 (Some (CanvasProto (Native native_toDataURL) Undefined))
                 [pixel_canvas] (fun _ => draw_09) 0 [])
           (Context2DProto (Native native_getImageData)) (Native native_toDataURL)
           0 [ArgFunction 1]); reflexivity.
Defined.

End Runs.
